(** * check_video.py: frame sampling, per-frame classification, aggregation

    A shallow embedding of [Clusterring/check_video.py] and the properties
    of its three functions ([extract_frames], [classify_frame_with_api],
    [analyze_video]) and of the script's entry point.

    Conventions of the model:
    - Python exceptions are values of [exn]; a call returns [Return v] or
      [Raise e] ([result]).
    - Python floats (the reported frame rate, the scores) are finite and
      modelled as exact rationals [Q]: every finite binary64 value is
      one, and the rounding of [/] and of [np.mean] is outside the
      model.  [NaN], the value [np.mean] gives for an empty list, is
      kept apart ([npfloat]).
    - Python ints ([interval], [frame_count]) are [Z].
    - The temporary directory is a finite set of paths, threaded through
      the calls that create and remove files. *)

From Stdlib Require Import ZArith QArith Qround Permutation.
From stdpp Require Import base list strings gmap.

Open Scope Z_scope.

(** * The program *)

(** ** Exceptions and results *)

Inductive exn : Type :=
| IOError (msg : string)
| ValueError (msg : string)
| OSError
| ZeroDivisionError
| KeyError (key : string)
| TypeError
| UnboundLocalError (name : string)
| cv2_error
| RequestException.

Inductive result (A : Type) : Type :=
| Return (a : A)
| Raise (e : exn).

Arguments Return {A} a.
Arguments Raise {A} e.

#[global] Instance result_ret : MRet result := @Return.
#[global] Instance result_bind : MBind result :=
  fun A B f r => match r with Return a => f a | Raise e => Raise e end.
#[global] Instance result_fmap : FMap result :=
  fun A B f r => match r with Return a => Return (f a) | Raise e => Raise e end.

(** ** The video source *)

(** What [cv2.VideoCapture(video_path)] gives: whether the file opened,
    the rate [cap.get(cv2.CAP_PROP_FPS)] reports, and the frames that
    successive [cap.read()] calls deliver before the first call whose
    [ret] is false. *)
Record VideoCapture (Frame : Type) : Type := mkCapture {
  isOpened : bool;
  CAP_PROP_FPS : Q;
  frames_of : list Frame
}.

Arguments mkCapture {Frame} _ _ _.
Arguments isOpened {Frame} _.
Arguments CAP_PROP_FPS {Frame} _.
Arguments frames_of {Frame} _.

(** ** extract_frames *)

(** [int(x)] on a float: truncation toward zero. *)
Definition py_int (x : Q) : Z := Z.quot (Qnum x) (Zpos (Qden x)).

(** [fps > 0] *)
Definition Qgtb (x y : Q) : bool := negb (Qle_bool x y).

(** [interval = int(fps / frame_rate) if fps > 0 else 1]; the division
    is evaluated only when [fps > 0] and raises when [frame_rate] is 0. *)
Definition sampling_interval (fps frame_rate : Q) : result Z :=
  if Qgtb fps 0 then
    if Qeq_bool frame_rate 0 then Raise ZeroDivisionError
    else Return (py_int (fps / frame_rate))
  else Return 1.

(** The [while] loop: [stream] is what is still to be read,
    [frame_count] the counter, [frames] the list built so far.
    [frame_count % interval] raises when [interval] is 0; the
    [try ... except cv2.error] around [frames.append] never fires. *)
Fixpoint read_loop {Frame : Type} (interval : Z) (stream : list Frame)
    (frame_count : Z) (frames : list Frame) : result (list Frame) :=
  match stream with
  | [] => Return frames
  | frame :: stream' =>
      if interval =? 0 then Raise ZeroDivisionError
      else if frame_count mod interval =? 0
           then read_loop interval stream' (frame_count + 1) (frames ++ [frame])
           else read_loop interval stream' (frame_count + 1) frames
  end.

Definition is_nil {A : Type} (l : list A) : bool :=
  match l with [] => true | _ => false end.

Definition extract_frames {Frame : Type} (cap : VideoCapture Frame)
    (video_path : string) (frame_rate : Q) : result (list Frame) :=
  if negb (isOpened cap) then
    Raise (IOError ("Could not open video file: " +:+ video_path))
  else
    interval ← sampling_interval (CAP_PROP_FPS cap) frame_rate;
    frames ← read_loop interval (frames_of cap) 0 [];
    if is_nil frames then
      Raise (ValueError "No valid frames extracted. Check the video file or frame rate.")
    else Return frames.


(** ** The classifier call *)

(** Parsed JSON, as far as the script looks into it.  An object is the
    list of its members; arrays and booleans are left out. *)
#[local] Set Warnings "-register-all".

Inductive json : Type :=
| JNull
| JNum (x : Q)
| JStr (s : string)
| JObj (members : list (string * json)).

Fixpoint assoc (key : string) (members : list (string * json)) : option json :=
  match members with
  | [] => None
  | (k, v) :: rest => if String.eqb key k then Some v else assoc key rest
  end.

Fixpoint is_substring (key s : string) : bool :=
  String.prefix key s ||
  match s with
  | EmptyString => false
  | String _ s' => is_substring key s'
  end.

(** [key in obj]: membership among the keys of a dict, substring test on
    a str, [TypeError] on a number or [None]. *)
Definition py_in (key : string) (obj : json) : result bool :=
  match obj with
  | JObj members => Return (bool_decide (is_Some (assoc key members)))
  | JStr s => Return (is_substring key s)
  | JNull | JNum _ => Raise TypeError
  end.

(** [obj[key]] with a str key: [KeyError] on a dict without the key,
    [TypeError] on anything that is not a dict. *)
Definition py_getitem (obj : json) (key : string) : result json :=
  match obj with
  | JObj members =>
      match assoc key members with
      | Some v => Return v
      | None => Raise (KeyError key)
      end
  | _ => Raise TypeError
  end.

(** What the lines [requests.post], [raise_for_status], [response.json]
    produce: an exception, or the parsed body. *)
Inductive http_outcome : Type :=
| PostRaises (e : exn)
| PostReturns (body : json).

(** The world as one call of [classify_frame_with_api] meets it:
    - [tmp_name]: the path [tempfile.NamedTemporaryFile] creates, [None]
      when the creation itself raises;
    - [imwrite_raises]: whether [cv2.imwrite] raises [cv2.error] on the
      frame (it does on an empty image);
    - [http]: the outcome of the request. *)
Record call_env : Type := mkEnv {
  tmp_name : option string;
  imwrite_raises : bool;
  http : http_outcome
}.

(** Lines 67-71: the body of the response. *)
Definition read_score (body : json) : result json :=
  b ← py_in "nudity" body;
  if b : bool then
    nudity ← py_getitem body "nudity";
    py_getitem nudity "raw"
  else Return (JNum 0).

(** The [try] block.  Besides its outcome it gives the binding of the
    local [temp_image_path] ([None]: still unbound) and the files on
    disk.  The assignment to [temp_image_path] comes after
    [cv2.imwrite]. *)
Definition classify_try (env : call_env) (fs : gset string)
    : result json * option string * gset string :=
  match tmp_name env with
  | None => (Raise OSError, None, fs)
  | Some name =>
      let fs := {[ name ]} ∪ fs in
      if imwrite_raises env then (Raise cv2_error, None, fs)
      else
        let temp_image_path := name in
        match http env with
        | PostRaises e => (Raise e, Some temp_image_path, fs)
        | PostReturns body => (read_score body, Some temp_image_path, fs)
        end
  end.

(** [except requests.exceptions.RequestException: return 0.0] *)
Definition classify_except (r : result json) : result json :=
  match r with
  | Raise RequestException => Return (JNum 0)
  | _ => r
  end.

(** [finally]: an unbound [temp_image_path] raises here, and that
    exception replaces the outcome so far. *)
Definition classify_finally (r : result json) (temp_image_path : option string)
    (fs : gset string) : result json * gset string :=
  match temp_image_path with
  | None => (Raise (UnboundLocalError "temp_image_path"), fs)
  | Some path =>
      if bool_decide (path ∈ fs) then (r, fs ∖ {[ path ]}) else (r, fs)
  end.

(** [world frame] is the environment the call on [frame] runs in. *)
Definition classify_frame_with_api {Frame : Type} (world : Frame → call_env)
    (frame : Frame) (fs : gset string) : result json * gset string :=
  let '(r, temp_image_path, fs) := classify_try (world frame) fs in
  classify_finally (classify_except r) temp_image_path fs.

(** ** Aggregation *)

Inductive npfloat : Type :=
| Fin (x : Q)
| NaN.

Fixpoint numbers (scores : list json) : option (list Q) :=
  match scores with
  | [] => Some []
  | JNum x :: rest => cons x <$> numbers rest
  | _ :: rest => None
  end.

Definition Qsum (xs : list Q) : Q := foldr Qplus 0%Q xs.

(** [np.mean] of a Python list: the sum over the count for numbers,
    [nan] for the empty list, [TypeError] when an element is not a
    number.  The quotient is given in lowest terms. *)
Definition np_mean (scores : list json) : result npfloat :=
  match numbers scores with
  | None => Raise TypeError
  | Some [] => Return NaN
  | Some xs => Return (Fin (Qred (Qsum xs / inject_Z (Z.of_nat (length xs)))))
  end.

(** Lines 99-104 of [analyze_video]. *)
Definition aggregate (nsfw_scores : list json) : result npfloat :=
  if is_nil nsfw_scores then
    Raise (ValueError "No scores were calculated. Please check the video and API response.")
  else np_mean nsfw_scores.

(** ** analyze_video and the entry point *)

(** The [for idx, frame in enumerate(frames)] loop of [analyze_video]:
    [api idx] is the world at the call numbered [idx].  A score is
    appended when the call returns; when it raises, [except Exception]
    prints and the loop goes on.  (When the score is not a number the
    [print] after [append] raises into the same handler, with the score
    already in the list.) *)
Fixpoint score_loop {Frame : Type} (api : nat → Frame → call_env)
    (frames : list Frame) (idx : nat) (nsfw_scores : list json)
    (fs : gset string) : list json * gset string :=
  match frames with
  | [] => (nsfw_scores, fs)
  | frame :: frames' =>
      match classify_frame_with_api (api idx) frame fs with
      | (Return score, fs) =>
          score_loop api frames' (S idx) (nsfw_scores ++ [score]) fs
      | (Raise _, fs) => score_loop api frames' (S idx) nsfw_scores fs
      end
  end.

(** [uploaded_video] is given by the capture OpenCV opens on its copy,
    [temp_video] by the name of that copy ([None]: it could not be
    created).  The copy is never removed. *)
Definition analyze_video {Frame : Type} (uploaded_video : VideoCapture Frame)
    (temp_video : option string) (api : nat → Frame → call_env)
    (fs : gset string) : result npfloat * gset string :=
  match temp_video with
  | None => (Raise OSError, fs)
  | Some video_path =>
      let fs := {[ video_path ]} ∪ fs in
      match extract_frames uploaded_video video_path 1 with
      | Raise e => (Raise e, fs)
      | Return frames =>
          if is_nil frames then
            (Raise (ValueError "No frames were extracted from the video. Please upload a valid video file."), fs)
          else
            let '(nsfw_scores, fs) := score_loop api frames 0 [] fs in
            (aggregate nsfw_scores, fs)
      end
  end.

(** The list comprehension of the entry point: the first call that
    raises ends it. *)
Fixpoint comprehension {Frame : Type} (api : nat → Frame → call_env)
    (frames : list Frame) (idx : nat) (fs : gset string)
    : result (list json) * gset string :=
  match frames with
  | [] => (Return [], fs)
  | frame :: frames' =>
      match classify_frame_with_api (api idx) frame fs with
      | (Raise e, fs) => (Raise e, fs)
      | (Return score, fs) =>
          match comprehension api frames' (S idx) fs with
          | (Raise e, fs) => (Raise e, fs)
          | (Return scores, fs) => (Return (score :: scores), fs)
          end
      end
  end.

(** The [try] block under [if __name__ == "__main__"]: [Return x] when
    the aggregated score [x] is printed, [Raise e] when the handler
    prints [Error: e]. *)
Definition main {Frame : Type} (cap : VideoCapture Frame) (video_path : string)
    (api : nat → Frame → call_env) (fs : gset string)
    : result npfloat * gset string :=
  match extract_frames cap video_path 1 with
  | Raise e => (Raise e, fs)
  | Return frames =>
      match comprehension api frames 0 fs with
      | (Raise e, fs) => (Raise e, fs)
      | (Return scores, fs) => (np_mean scores, fs)
      end
  end.

(** * Vocabulary of the properties *)

(** The three fatal errors, as the program words them. *)
Definition StreamUnavailable (video_path : string) : exn :=
  IOError ("Could not open video file: " +:+ video_path).

Definition EmptyResult : exn :=
  ValueError "No valid frames extracted. Check the video file or frame rate.".

Definition EmptyScores : exn :=
  ValueError "No scores were calculated. Please check the video and API response.".

(** [position] is a multiple of [interval]; 0 is the one multiple of 0. *)
Definition is_multiple (interval position : Z) : bool :=
  if interval =? 0 then position =? 0 else position mod interval =? 0.

(** The frames of [stream] whose position is a multiple of [interval],
    in stream order; the first frame of [stream] has position [start]. *)
Definition at_multiples {Frame : Type} (interval start : Z)
    (stream : list Frame) : list Frame :=
  (filter (λ pf, is_multiple interval pf.1)
     (zip (seqZ start (Z.of_nat (length stream))) stream)).*2.

Definition map_capture {A B : Type} (f : A → B) (cap : VideoCapture A) : VideoCapture B :=
  mkCapture (isOpened cap) (CAP_PROP_FPS cap) (f <$> frames_of cap).

(** The same stream with every frame paired with its 0-based position. *)
Definition numbered {Frame : Type} (cap : VideoCapture Frame) : VideoCapture (nat * Frame) :=
  mkCapture (isOpened cap) (CAP_PROP_FPS cap)
    (zip (seq 0 (length (frames_of cap))) (frames_of cap)).

(** The positions of the frames [extract_frames] returns. *)
Definition selected_positions {Frame : Type} (cap : VideoCapture Frame)
    (video_path : string) (frame_rate : Q) : result (list nat) :=
  fmap (M := result) (fmap fst) (extract_frames (numbered cap) video_path frame_rate).

(** What the call numbered [idx] gives on [frame]. *)
Definition outcome {Frame : Type} (api : nat → Frame → call_env)
    (idx : nat) (frame : Frame) : result json :=
  (classify_frame_with_api (api idx) frame ∅).1.

(** The call goes through and the body carries [{"nudity": {"raw": x}}]. *)
Definition call_succeeds (env : call_env) (x : Q) : Prop :=
  ∃ name members inner,
    tmp_name env = Some name ∧
    imwrite_raises env = false ∧
    http env = PostReturns (JObj members) ∧
    assoc "nudity" members = Some (JObj inner) ∧
    assoc "raw" inner = Some (JNum x).

(** The request raises a [RequestException] (no connection, a status
    that [raise_for_status] rejects), or the body has no ["nudity"]. *)
Definition call_fails_softly (env : call_env) : Prop :=
  ∃ name,
    tmp_name env = Some name ∧
    imwrite_raises env = false ∧
    (http env = PostRaises RequestException ∨
     ∃ body, http env = PostReturns body ∧ py_in "nudity" body = Return false).

(** The scores of the calls that return, in frame order; the first
    frame of [frames] meets the call numbered [idx]. *)
Definition returned_scores {Frame : Type} (api : nat → Frame → call_env)
    (idx : nat) (frames : list Frame) : list json :=
  omap (λ p, match outcome api p.1 p.2 with
             | Return score => Some score
             | Raise _ => None
             end)
       (zip (seq idx (length frames)) frames).

(** * The frame sampler *)

(** ** Multiples of the interval *)

Lemma is_multiple_divide interval position :
  is_multiple interval position ↔ (interval | position).
Proof.
  unfold is_multiple. destruct (Z.eqb_spec interval 0) as [->|Hne].
  - rewrite Is_true_true, Z.eqb_eq. split.
    + intros ->. apply Z.divide_0_r.
    + apply Z.divide_0_l.
  - rewrite Is_true_true, Z.eqb_eq. apply Z.mod_divide. exact Hne.
Qed.

Lemma is_multiple_0_r interval : is_multiple interval 0 = true.
Proof.
  apply Is_true_true, is_multiple_divide, Z.divide_0_r.
Qed.

Lemma is_multiple_nonzero interval position :
  interval ≠ 0 → is_multiple interval position = (position mod interval =? 0).
Proof.
  intros Hne. unfold is_multiple. by destruct (Z.eqb_spec interval 0).
Qed.

Section sampler.
Context {Frame : Type}.
Implicit Types (cap : VideoCapture Frame) (stream frames : list Frame).
Implicit Types (frame : Frame) (interval start frame_count : Z).

Lemma at_multiples_nil interval start :
  at_multiples interval start (@nil Frame) = [].
Proof. reflexivity. Qed.

Lemma at_multiples_cons interval start frame stream :
  at_multiples interval start (frame :: stream) =
  if is_multiple interval start
  then frame :: at_multiples interval (start + 1) stream
  else at_multiples interval (start + 1) stream.
Proof.
  unfold at_multiples. cbn [length].
  rewrite seqZ_cons by lia.
  replace (Z.pred (Z.of_nat (S (length stream)))) with (Z.of_nat (length stream)) by lia.
  replace (Z.succ start) with (start + 1) by lia.
  cbn [zip zip_with]. rewrite filter_cons. cbn [fst].
  destruct (is_multiple interval start); reflexivity.
Qed.

Lemma at_multiples_first interval frame stream :
  at_multiples interval 0 (frame :: stream) =
  frame :: at_multiples interval 1 stream.
Proof. by rewrite at_multiples_cons, is_multiple_0_r. Qed.

(** With interval 1 nothing is dropped. *)
Lemma at_multiples_1 start stream : at_multiples 1 start stream = stream.
Proof.
  revert start. induction stream as [|frame stream IH]; intros start.
  - reflexivity.
  - rewrite at_multiples_cons, is_multiple_nonzero by lia.
    rewrite Z.mod_1_r. cbn. by rewrite IH.
Qed.

(** A frame is kept exactly when it stands at a multiple of the
    interval. *)
Lemma elem_of_at_multiples interval start stream frame :
  frame ∈ at_multiples interval start stream ↔
  ∃ i : nat, stream !! i = Some frame ∧ (interval | start + Z.of_nat i).
Proof.
  revert start. induction stream as [|frame' stream IH]; intros start.
  - rewrite at_multiples_nil. split; [by intros ?%elem_of_nil|].
    by intros (i & Hi & _).
  - rewrite at_multiples_cons. split.
    + destruct (is_multiple interval start) eqn:E.
      * intros [->|Hin]%elem_of_cons.
        -- exists 0%nat. split; [done|]. rewrite Z.add_0_r.
           by apply is_multiple_divide, Is_true_true.
        -- apply IH in Hin as (i & Hi & Hd). exists (S i). split; [done|].
           by replace (start + Z.of_nat (S i)) with (start + 1 + Z.of_nat i) by lia.
      * intros Hin. apply IH in Hin as (i & Hi & Hd). exists (S i). split; [done|].
        by replace (start + Z.of_nat (S i)) with (start + 1 + Z.of_nat i) by lia.
    + intros ([|i] & Hi & Hd).
      * injection Hi as ->. rewrite Z.add_0_r in Hd.
        apply is_multiple_divide, Is_true_true in Hd. rewrite Hd. by left.
      * assert (frame ∈ at_multiples interval (start + 1) stream) as Hin.
        { apply IH. exists i. split; [done|].
          by replace (start + 1 + Z.of_nat i) with (start + Z.of_nat (S i)) by lia. }
        destruct (is_multiple interval start); [by right | done].
Qed.

(** ** The loop *)

Lemma read_loop_nonzero interval stream :
  interval ≠ 0 → ∀ frame_count frames,
  read_loop interval stream frame_count frames =
  Return (frames ++ at_multiples interval frame_count stream).
Proof.
  intros Hne. induction stream as [|frame stream IH]; intros frame_count frames.
  - cbn. by rewrite at_multiples_nil, app_nil_r.
  - cbn [read_loop]. rewrite at_multiples_cons, is_multiple_nonzero by done.
    destruct (Z.eqb_spec interval 0) as [|_]; [done|].
    destruct (frame_count mod interval =? 0).
    + rewrite IH. by rewrite <- app_assoc.
    + apply IH.
Qed.

Lemma read_loop_zero frame stream frame_count frames :
  read_loop 0 (frame :: stream) frame_count frames = Raise ZeroDivisionError.
Proof. reflexivity. Qed.

(** ** extract_frames, case by case *)

Lemma extract_frames_closed cap video_path frame_rate :
  isOpened cap = false →
  extract_frames cap video_path frame_rate = Raise (StreamUnavailable video_path).
Proof. intros H. unfold extract_frames. by rewrite H. Qed.

Lemma extract_frames_no_frames cap video_path frame_rate interval :
  isOpened cap = true →
  sampling_interval (CAP_PROP_FPS cap) frame_rate = Return interval →
  frames_of cap = [] →
  extract_frames cap video_path frame_rate = Raise EmptyResult.
Proof.
  intros Ho Hi Hf. unfold extract_frames. by rewrite Ho, Hi, Hf.
Qed.

Lemma extract_frames_nonzero cap video_path frame_rate interval :
  isOpened cap = true →
  sampling_interval (CAP_PROP_FPS cap) frame_rate = Return interval →
  interval ≠ 0 →
  frames_of cap ≠ [] →
  extract_frames cap video_path frame_rate =
  Return (at_multiples interval 0 (frames_of cap)).
Proof.
  intros Ho Hi Hne Hf. unfold extract_frames. rewrite Ho, Hi. cbn.
  rewrite read_loop_nonzero by done. cbn.
  destruct (frames_of cap) as [|frame stream]; [done|].
  by rewrite at_multiples_first.
Qed.

Lemma extract_frames_zero cap video_path frame_rate :
  isOpened cap = true →
  sampling_interval (CAP_PROP_FPS cap) frame_rate = Return 0 →
  frames_of cap ≠ [] →
  extract_frames cap video_path frame_rate = Raise ZeroDivisionError.
Proof.
  intros Ho Hi Hf. unfold extract_frames. rewrite Ho, Hi. cbn.
  by destruct (frames_of cap).
Qed.

Lemma extract_frames_nonempty cap video_path frame_rate frames :
  extract_frames cap video_path frame_rate = Return frames → frames ≠ [].
Proof.
  unfold extract_frames. destruct (isOpened cap); [|done]. cbn.
  destruct (sampling_interval (CAP_PROP_FPS cap) frame_rate) as [interval|e]; [|done].
  cbn. destruct (read_loop interval (frames_of cap) 0 []) as [[|frame l]|e]; [done| |done].
  cbn. by intros [= <-].
Qed.

End sampler.

(** ** The interval *)

Lemma Qgtb_true x y : Qgtb x y = true ↔ (y < x)%Q.
Proof.
  unfold Qgtb. rewrite negb_true_iff, <- not_true_iff_false, Qle_bool_iff.
  split; [apply Qnot_le_lt | apply Qlt_not_le].
Qed.

Lemma Qgtb_false x y : Qgtb x y = false ↔ (x <= y)%Q.
Proof. unfold Qgtb. by rewrite negb_false_iff, Qle_bool_iff. Qed.

(** On a quotient that is not negative, [int] is the floor. *)
Lemma py_int_floor x : (0 <= x)%Q → py_int x = Qfloor x.
Proof.
  destruct x as [n d]. unfold Qle, py_int, Qfloor. cbn. intros Hn.
  apply Z.quot_div_nonneg; lia.
Qed.

Lemma Qdiv_nonneg x y : (0 < x)%Q → (0 < y)%Q → (0 <= x / y)%Q.
Proof.
  intros Hx Hy. apply Qlt_le_weak, Qlt_shift_div_l; [done|]. by rewrite Qmult_0_l.
Qed.

Lemma sampling_interval_positive fps frame_rate :
  (0 < fps)%Q → (0 < frame_rate)%Q →
  sampling_interval fps frame_rate = Return (Qfloor (fps / frame_rate)).
Proof.
  intros Hf Hr. unfold sampling_interval.
  rewrite (proj2 (Qgtb_true fps 0) Hf).
  destruct (Qeq_bool frame_rate 0) eqn:E.
  - apply Qeq_bool_eq in E. rewrite E in Hr. by apply Qlt_irrefl in Hr.
  - f_equal. by apply py_int_floor, Qdiv_nonneg.
Qed.

Lemma sampling_interval_nonpositive fps frame_rate :
  (fps <= 0)%Q → sampling_interval fps frame_rate = Return 1.
Proof.
  intros Hf. unfold sampling_interval. by rewrite (proj2 (Qgtb_false fps 0) Hf).
Qed.

(** A positive rate below the sampling rate gives the interval 0. *)
Lemma sampling_interval_boundary fps frame_rate :
  (0 < fps)%Q → (fps < frame_rate)%Q →
  sampling_interval fps frame_rate = Return 0.
Proof.
  intros Hf Hr.
  assert (0 < frame_rate)%Q as Hpos by (eapply Qlt_trans; eassumption).
  rewrite sampling_interval_positive by done. f_equal.
  pose proof (Qdiv_nonneg _ _ Hf Hpos) as Hlo.
  assert (fps / frame_rate < 1)%Q as Hhi.
  { apply Qlt_shift_div_r; [done|]. by rewrite Qmult_1_l. }
  apply Z.le_antisymm.
  - destruct (Z.lt_ge_cases (Qfloor (fps / frame_rate)) 1) as [|Hge]; [lia|].
    exfalso. apply (Qlt_not_le _ _ Hhi).
    eapply Qle_trans; [|apply Qfloor_le].
    change 1%Q with (inject_Z 1). rewrite <- Zle_Qle. exact Hge.
  - change 0 with (Qfloor 0). by apply Qfloor_resp_le.
Qed.

(** ** How many frames are kept *)





(** X2. With a reported rate of zero or less every frame of a
    non-empty opened stream is returned, whatever the sampling rate. *)
Lemma extract_frames_unknown_rate {Frame : Type} (cap : VideoCapture Frame) video_path frame_rate :
  isOpened cap = true →
  (CAP_PROP_FPS cap <= 0)%Q →
  frames_of cap ≠ [] →
  extract_frames cap video_path frame_rate = Return (frames_of cap).
Proof.
  intros Ho Hf Hne.
  rewrite (extract_frames_nonzero cap video_path frame_rate 1); try done.
  - by rewrite at_multiples_1.
  - by apply sampling_interval_nonpositive.
Qed.

(** ** The sampler does not look at the frames *)

Lemma read_loop_fmap {A B : Type} (f : A → B) interval (stream : list A) :
  ∀ frame_count frames,
  read_loop interval (f <$> stream) frame_count (f <$> frames) =
  fmap (M := result) (fmap f) (read_loop interval stream frame_count frames).
Proof.
  induction stream as [|frame stream IH]; intros frame_count frames; cbn.
  - reflexivity.
  - destruct (interval =? 0); [reflexivity|].
    destruct (frame_count mod interval =? 0); [|apply IH].
    rewrite <- IH. by rewrite fmap_app.
Qed.

Lemma extract_frames_fmap {A B : Type} (f : A → B) (cap : VideoCapture A) video_path frame_rate :
  extract_frames (map_capture f cap) video_path frame_rate =
  fmap (M := result) (fmap f) (extract_frames cap video_path frame_rate).
Proof.
  unfold extract_frames. cbn.
  destruct (isOpened cap); [|reflexivity]. cbn.
  destruct (sampling_interval (CAP_PROP_FPS cap) frame_rate) as [interval|e]; [|reflexivity].
  cbn. pose proof (read_loop_fmap f interval (frames_of cap) 0 []) as H.
  cbn in H. rewrite H.
  destruct (read_loop interval (frames_of cap) 0 []) as [[|frame frames]|e]; reflexivity.
Qed.

(** Numbering the frames does not change which ones are returned. *)
Lemma numbered_frames {Frame : Type} (cap : VideoCapture Frame) video_path frame_rate :
  fmap (M := result) (fmap snd) (extract_frames (numbered cap) video_path frame_rate) =
  extract_frames cap video_path frame_rate.
Proof.
  rewrite <- extract_frames_fmap. f_equal.
  destruct cap as [o fps frames]. unfold map_capture, numbered. cbn. f_equal.
  apply snd_zip. by rewrite length_seq.
Qed.

Lemma selected_positions_alt {Frame : Type} (cap : VideoCapture Frame) video_path frame_rate :
  selected_positions cap video_path frame_rate =
  extract_frames
    (mkCapture (isOpened cap) (CAP_PROP_FPS cap) (seq 0 (length (frames_of cap))))
    video_path frame_rate.
Proof.
  unfold selected_positions. rewrite <- extract_frames_fmap. f_equal.
  unfold map_capture, numbered. cbn. f_equal.
  apply fst_zip. by rewrite length_seq.
Qed.

(** ** The sampler on the scenarios of the specification *)

Example extract_30fps :
  extract_frames (mkCapture true 30 (seq 0 90)) "clip.mp4" 1 = Return [0; 30; 60]%nat.
Proof. vm_compute. reflexivity. Qed.

Example extract_single_frame :
  extract_frames (mkCapture true 25 ["frame0"]) "clip.mp4" 1 = Return ["frame0"].
Proof. reflexivity. Qed.

Example extract_no_frames :
  extract_frames (mkCapture true 25 (@nil string)) "clip.mp4" 1 = Raise EmptyResult.
Proof. reflexivity. Qed.

(** ** The claims about the sampler *)

(** C1 (where the code departs from the claim). When the reported rate
    is positive but below the sampling rate, [floor(F/R)] is 0 and the
    interval is used as it is, not replaced by 1: on an opened stream
    with at least one frame [extract_frames] raises [ZeroDivisionError]
    instead of returning every frame. *)
Theorem extract_frames_boundary_raises {Frame : Type} (cap : VideoCapture Frame)
    (video_path : string) (frame_rate : Q) :
  isOpened cap = true →
  frames_of cap ≠ [] →
  (0 < CAP_PROP_FPS cap)%Q →
  (CAP_PROP_FPS cap < frame_rate)%Q →
  sampling_interval (CAP_PROP_FPS cap) frame_rate = Return 0 ∧
  extract_frames cap video_path frame_rate = Raise ZeroDivisionError.
Proof.
  intros Ho Hne Hf Hr.
  pose proof (sampling_interval_boundary _ _ Hf Hr) as Hi.
  split; [done|]. by apply extract_frames_zero.
Qed.

Lemma extract_frames_boundary_raises_witness :
  sampling_interval (1 # 2) 1 = Return 0 ∧
  extract_frames (mkCapture true (1 # 2) ["frame0"]) "clip.mp4" 1
  = Raise ZeroDivisionError.
Proof.
  apply (extract_frames_boundary_raises (mkCapture true (1 # 2) ["frame0"]) "clip.mp4" 1);
    [reflexivity | discriminate | reflexivity | reflexivity].
Defined.

(** C3 (where the code departs from the claim). With a reported rate of
    0.5 and a sampling rate of 1 the interval is [floor(0.5 / 1) = 0];
    position 0 is the one multiple of 0, yet on a two-frame stream
    [extract_frames] keeps no frame and raises [ZeroDivisionError]. *)
Theorem extract_frames_interval_zero :
  sampling_interval (1 # 2) 1 = Return 0 ∧
  at_multiples 0 0 ["frame0"; "frame1"] = ["frame0"] ∧
  extract_frames (mkCapture true (1 # 2) ["frame0"; "frame1"]) "clip.mp4" 1
  = Raise ZeroDivisionError.
Proof. repeat split; vm_compute; reflexivity. Qed.

(** C5. A stream that cannot be opened makes [extract_frames] raise the
    [IOError] (StreamUnavailable); an opened stream from which the loop
    selects no frame, and in particular an opened stream without frames
    read at a positive rate, makes it raise the [ValueError]
    (EmptyResult); and [extract_frames] never returns the empty list. *)
Theorem extract_frames_errors {Frame : Type} (cap : VideoCapture Frame)
    (video_path : string) (frame_rate : Q) :
  (isOpened cap = false →
   extract_frames cap video_path frame_rate = Raise (StreamUnavailable video_path)) ∧
  (isOpened cap = true →
   ∀ interval,
     sampling_interval (CAP_PROP_FPS cap) frame_rate = Return interval →
     read_loop interval (frames_of cap) 0 [] = Return [] →
     extract_frames cap video_path frame_rate = Raise EmptyResult) ∧
  (isOpened cap = true → frames_of cap = [] → (0 < frame_rate)%Q →
   extract_frames cap video_path frame_rate = Raise EmptyResult) ∧
  extract_frames cap video_path frame_rate ≠ Return [].
Proof.
  repeat split.
  - apply extract_frames_closed.
  - intros Ho interval Hi Hl. unfold extract_frames. rewrite Ho, Hi. cbn.
    by rewrite Hl.
  - intros Ho Hf Hr.
    destruct (Qlt_le_dec 0 (CAP_PROP_FPS cap)) as [Hpos|Hle].
    + eapply extract_frames_no_frames; [done| |done].
      by apply sampling_interval_positive.
    + eapply extract_frames_no_frames; [done| |done].
      by apply sampling_interval_nonpositive.
  - intros H. by apply extract_frames_nonempty in H.
Qed.

(** C9. On an opened stream with at least one frame and a positive
    sampling interval, the frame at position 0 is kept and is the first
    element of the list [extract_frames] returns. *)
Theorem first_frame_kept {Frame : Type} (cap : VideoCapture Frame)
    (video_path : string) (frame_rate : Q) (interval : Z)
    (frame : Frame) (stream : list Frame) :
  isOpened cap = true →
  frames_of cap = frame :: stream →
  sampling_interval (CAP_PROP_FPS cap) frame_rate = Return interval →
  0 < interval →
  ∃ rest, extract_frames cap video_path frame_rate = Return (frame :: rest).
Proof.
  intros Ho Hf Hi Hpos.
  exists (at_multiples interval 1 stream).
  assert (interval ≠ 0) as Hnz by lia.
  assert (frames_of cap ≠ []) as Hne by (by rewrite Hf).
  rewrite (extract_frames_nonzero cap video_path frame_rate interval Ho Hi Hnz Hne).
  by rewrite Hf, at_multiples_first.
Qed.

Lemma first_frame_kept_witness :
  ∃ rest,
    extract_frames (mkCapture true 30 ["frame0"; "frame1"]) "clip.mp4" 1
    = Return ("frame0" :: rest).
Proof.
  apply (first_frame_kept (mkCapture true 30 ["frame0"; "frame1"]) "clip.mp4" 1 30
           "frame0" ["frame1"]);
    [reflexivity | reflexivity | reflexivity | lia].
Defined.

(** C10. Two streams with the same reported rate and the same number of
    frames (both opened, or both not) have the same positions selected,
    whatever their frames are, and even of what type. *)
Theorem selection_ignores_content {A B : Type} (cap1 : VideoCapture A)
    (cap2 : VideoCapture B) (video_path : string) (frame_rate : Q) :
  isOpened cap1 = isOpened cap2 →
  CAP_PROP_FPS cap1 = CAP_PROP_FPS cap2 →
  length (frames_of cap1) = length (frames_of cap2) →
  selected_positions cap1 video_path frame_rate =
  selected_positions cap2 video_path frame_rate.
Proof.
  intros Ho Hf Hl. rewrite !selected_positions_alt. by rewrite Ho, Hf, Hl.
Qed.

Lemma selection_ignores_content_witness :
  selected_positions (mkCapture true 2 ["a"; "b"; "c"]) "clip.mp4" 1 =
  selected_positions (mkCapture true 2 [7; 8; 9]) "clip.mp4" 1.
Proof.
  apply (selection_ignores_content (mkCapture true 2 ["a"; "b"; "c"])
           (mkCapture true 2 [7; 8; 9]) "clip.mp4" 1); reflexivity.
Defined.

(** * The classifier call *)

Ltac unfold_classify :=
  unfold classify_frame_with_api, classify_try, classify_finally.

(** The outcome of a call does not depend on the files on disk. *)
Lemma classify_outcome_fs {Frame : Type} (world : Frame → call_env) frame fs fs' :
  (classify_frame_with_api world frame fs).1 =
  (classify_frame_with_api world frame fs').1.
Proof.
  unfold_classify.
  destruct (tmp_name (world frame)) as [name|]; [|reflexivity].
  destruct (imwrite_raises (world frame)); [reflexivity|].
  destruct (http (world frame)); by repeat case_bool_decide.
Qed.

(** X5. Once [cv2.imwrite] has returned, the temporary file is gone
    when the call ends and the directory is as it was before, whatever
    the request did. *)
Lemma classify_removes_file {Frame : Type} (world : Frame → call_env) frame fs name :
  tmp_name (world frame) = Some name →
  imwrite_raises (world frame) = false →
  name ∉ fs →
  (classify_frame_with_api world frame fs).2 = fs.
Proof.
  intros Hn Hw Hfresh.
  unfold_classify.
  rewrite Hn, Hw.
  assert (({[ name ]} ∪ fs) ∖ {[ name ]} = fs) as Hfs.
  { apply set_eq. intros x.
    rewrite elem_of_difference, elem_of_union, elem_of_singleton.
    split; [tauto|]. intros Hx. split; [tauto|]. by intros ->. }
  destruct (http (world frame));
    by rewrite bool_decide_true by (apply elem_of_union_l, elem_of_singleton_2; reflexivity).
Qed.

Lemma classify_no_file {Frame : Type} (world : Frame → call_env) frame fs :
  tmp_name (world frame) = None →
  classify_frame_with_api world frame fs =
  (Raise (UnboundLocalError "temp_image_path"), fs).
Proof.
  intros Hn. unfold classify_frame_with_api, classify_try. by rewrite Hn.
Qed.

(** C8 (where the code departs from the claim). When [cv2.imwrite]
    raises, the temporary file already exists but [temp_image_path] is
    not bound yet: the [finally] block raises [UnboundLocalError]
    instead of removing the file, which stays on disk after the call. *)
Theorem temp_file_left_behind {Frame : Type} (world : Frame → call_env)
    (frame : Frame) (fs : gset string) (name : string) :
  tmp_name (world frame) = Some name →
  imwrite_raises (world frame) = true →
  classify_frame_with_api world frame fs =
    (Raise (UnboundLocalError "temp_image_path"), {[ name ]} ∪ fs) ∧
  name ∈ (classify_frame_with_api world frame fs).2.
Proof.
  intros Hn Hw. unfold classify_frame_with_api, classify_try.
  rewrite Hn, Hw. cbn. split; [reflexivity|].
  by apply elem_of_union_l, elem_of_singleton_2.
Qed.

Lemma temp_file_left_behind_witness :
  let world := λ _ : string,
    mkEnv (Some "tmp0.jpg") true
      (PostReturns (JObj [("nudity", JObj [("raw", JNum (1 # 10))])])) in
  classify_frame_with_api world "empty image" ∅ =
    (Raise (UnboundLocalError "temp_image_path"), {[ "tmp0.jpg" ]} ∪ ∅) ∧
  "tmp0.jpg" ∈ (classify_frame_with_api world "empty image" ∅).2.
Proof.
  intros world.
  apply (temp_file_left_behind world "empty image" ∅ "tmp0.jpg"); reflexivity.
Defined.

(** * The aggregation *)


Lemma numbers_fmap (xs : list Q) : numbers (JNum <$> xs) = Some xs.
Proof. induction xs as [|x xs IH]; cbn; [done|]. by rewrite IH. Qed.

Lemma numbers_Some scores xs : numbers scores = Some xs → scores = JNum <$> xs.
Proof.
  revert xs. induction scores as [|s scores IH]; intros xs; cbn.
  - by intros [= <-].
  - destruct s as [|x|s|members]; try done.
    destruct (numbers scores) as [ys|]; cbn; [|done].
    intros [= <-]. cbn. f_equal. by apply IH.
Qed.

Lemma np_mean_NaN scores : np_mean scores = Return NaN → scores = [].
Proof.
  unfold np_mean. destruct (numbers scores) as [[|x xs]|] eqn:E; try done.
  intros _. by apply numbers_Some in E.
Qed.


#[global] Instance Qsum_Permutation : Proper ((≡ₚ) ==> Qeq) Qsum.
Proof.
  intros xs ys H. induction H as [|x xs ys _ IH|x y xs|xs ys zs _ IH1 _ IH2];
    cbn [Qsum foldr].
  - reflexivity.
  - fold (Qsum xs) (Qsum ys). by rewrite IH.
  - fold (Qsum xs). ring.
  - by rewrite IH1.
Qed.



(** ** The claims about the aggregation *)





(** * The two pipelines *)


Lemma outcome_succeeds {Frame : Type} (api : nat → Frame → call_env) idx frame x :
  call_succeeds (api idx frame) x → outcome api idx frame = Return (JNum x).
Proof.
  intros (name & members & inner & Hn & Hw & Hh & Hnud & Hraw).
  unfold outcome; unfold_classify.
  rewrite Hn, Hw, Hh. unfold read_score. cbn. rewrite Hnud. cbn. rewrite Hraw. cbn.
  by case_bool_decide.
Qed.

Lemma outcome_fails_softly {Frame : Type} (api : nat → Frame → call_env) idx frame :
  call_fails_softly (api idx frame) → outcome api idx frame = Return (JNum 0).
Proof.
  intros (name & Hn & Hw & [Hh | (body & Hh & Hin)]);
    unfold outcome; unfold_classify;
    rewrite Hn, Hw, Hh.
  - cbn. by case_bool_decide.
  - unfold read_score. rewrite Hin. cbn. by case_bool_decide.
Qed.

Lemma score_loop_all_return {Frame : Type} (api : nat → Frame → call_env) frames :
  ∀ idx nsfw_scores fs (vals : list json),
  length vals = length frames →
  (∀ i frame s, frames !! i = Some frame → vals !! i = Some s →
     outcome api (idx + i) frame = Return s) →
  (score_loop api frames idx nsfw_scores fs).1 = nsfw_scores ++ vals.
Proof.
  induction frames as [|frame frames IH]; intros idx nsfw_scores fs vals Hlen Hall.
  - destruct vals; [|done]. cbn. by rewrite app_nil_r.
  - destruct vals as [|s vals]; [done|]. cbn [score_loop].
    pose proof (Hall 0%nat frame s eq_refl eq_refl) as H0.
    rewrite Nat.add_0_r in H0. unfold outcome in H0.
    destruct (classify_frame_with_api (api idx) frame fs) as [r fs'] eqn:E.
    pose proof (classify_outcome_fs (api idx) frame fs ∅) as Hr.
    rewrite E in Hr. cbn in Hr. rewrite H0 in Hr. subst r.
    rewrite (IH (S idx) _ fs' vals).
    + by rewrite <- app_assoc.
    + by injection Hlen.
    + intros i frame' s' Hf Hv. specialize (Hall (S i) frame' s' Hf Hv).
      replace (idx + S i)%nat with (S (idx + i)) in Hall by lia. exact Hall.
Qed.

Lemma comprehension_all_return {Frame : Type} (api : nat → Frame → call_env) frames :
  ∀ idx fs (vals : list json),
  length vals = length frames →
  (∀ i frame s, frames !! i = Some frame → vals !! i = Some s →
     outcome api (idx + i) frame = Return s) →
  (comprehension api frames idx fs).1 = Return vals.
Proof.
  induction frames as [|frame frames IH]; intros idx fs vals Hlen Hall.
  - by destruct vals.
  - destruct vals as [|s vals]; [done|]. cbn [comprehension].
    pose proof (Hall 0%nat frame s eq_refl eq_refl) as H0.
    rewrite Nat.add_0_r in H0. unfold outcome in H0.
    destruct (classify_frame_with_api (api idx) frame fs) as [r fs'] eqn:E.
    pose proof (classify_outcome_fs (api idx) frame fs ∅) as Hr.
    rewrite E in Hr. cbn in Hr. rewrite H0 in Hr. subst r.
    specialize (IH (S idx) fs' vals).
    destruct (comprehension api frames (S idx) fs') as [r fs''].
    cbn in IH. rewrite IH; [done | by injection Hlen |].
    intros i frame' s' Hf Hv. specialize (Hall (S i) frame' s' Hf Hv).
    replace (idx + S i)%nat with (S (idx + i)) in Hall by lia. exact Hall.
Qed.

Lemma comprehension_length {Frame : Type} (api : nat → Frame → call_env) frames :
  ∀ idx fs scores fs',
  comprehension api frames idx fs = (Return scores, fs') →
  length scores = length frames.
Proof.
  induction frames as [|frame frames IH]; intros idx fs scores fs'; cbn.
  - by intros [= <- _].
  - destruct (classify_frame_with_api (api idx) frame fs) as [[score|e] fs1]; [|done].
    destruct (comprehension api frames (S idx) fs1) as [[rest|e] fs2] eqn:E; [|done].
    intros [= <- _]. cbn. f_equal. by eapply IH.
Qed.

Lemma aggregate_not_NaN scores : aggregate scores ≠ Return NaN.
Proof.
  unfold aggregate. destruct scores as [|s scores]; [done|]. cbn [is_nil].
  intros H. by apply np_mean_NaN in H.
Qed.


(** ** The claims about the pipelines *)

(** C4. On the empty list the aggregation step raises the
    EmptyScores [ValueError]; no list makes it return [nan];
    [analyze_video] never returns [nan]; and at the entry point, where
    [np.mean] is called without that check, the list it is given is
    never empty, so the entry point does not print [nan] either. *)
Theorem aggregator_never_divides_by_zero {Frame : Type} (cap : VideoCapture Frame)
    (temp_video : option string) (video_path : string)
    (api : nat → Frame → call_env) (fs : gset string) :
  aggregate [] = Raise EmptyScores ∧
  (∀ scores, aggregate scores ≠ Return NaN) ∧
  (analyze_video cap temp_video api fs).1 ≠ Return NaN ∧
  (∀ frames scores fs',
     extract_frames cap video_path 1 = Return frames →
     comprehension api frames 0 fs = (Return scores, fs') →
     scores ≠ []) ∧
  (main cap video_path api fs).1 ≠ Return NaN.
Proof.
  assert (∀ frames scores fs',
     extract_frames cap video_path 1 = Return frames →
     comprehension api frames 0 fs = (Return scores, fs') →
     scores ≠ []) as Hmain.
  { intros frames scores fs' He Hc ->.
    apply comprehension_length in Hc. apply extract_frames_nonempty in He.
    by destruct frames. }
  split; [reflexivity|]. split; [apply aggregate_not_NaN|]. split; [|split; [done|]].
  - unfold analyze_video. destruct temp_video as [path|]; [|done].
    destruct (extract_frames cap path 1) as [frames|e]; [|done].
    destruct (is_nil frames); [done|].
    destruct (score_loop api frames 0 [] _) as [nsfw_scores fs'].
    apply aggregate_not_NaN.
  - unfold main. destruct (extract_frames cap video_path 1) as [frames|e] eqn:He; [|done].
    destruct (comprehension api frames 0 fs) as [[scores|e] fs'] eqn:Hc; [|done].
    cbn. intros Hn. apply np_mean_NaN in Hn. by eapply Hmain.
Qed.

(** C2, as the code has it. When the call for frame [k] fails with a
    [RequestException] or its response has no ["nudity"] member, and the
    calls for all other frames succeed, neither pipeline aborts and the
    aggregate is the mean of all the scores with 0 at position [k]. *)
Theorem soft_failure_counts_as_zero {Frame : Type} (cap : VideoCapture Frame)
    (video_path : string) (api : nat → Frame → call_env) (fs : gset string)
    (frames : list Frame) (scores : list Q) (k : nat) :
  extract_frames cap video_path 1 = Return frames →
  length scores = length frames →
  (k < length frames)%nat →
  (∀ i frame, frames !! i = Some frame → i ≠ k →
     ∃ x, scores !! i = Some x ∧ call_succeeds (api i frame) x) →
  (∀ frame, frames !! k = Some frame → call_fails_softly (api k frame)) →
  let mean :=
    Fin (Qred (Qsum (<[k := 0%Q]> scores) / inject_Z (Z.of_nat (length frames)))) in
  (analyze_video cap (Some video_path) api fs).1 = Return mean ∧
  (main cap video_path api fs).1 = Return mean.
Proof.
  intros He Hlen Hk Hothers Hfail mean.
  set (vals := JNum <$> <[k := 0%Q]> scores).
  assert (length vals = length frames) as Hvals.
  { unfold vals. by rewrite length_fmap, length_insert. }
  assert (∀ i frame s, frames !! i = Some frame → vals !! i = Some s →
            outcome api (0 + i) frame = Return s) as Hall.
  { intros i frame s Hf Hv. cbn [Nat.add]. unfold vals in Hv.
    rewrite list_lookup_fmap in Hv.
    destruct (decide (i = k)) as [->|Hne].
    - rewrite list_lookup_insert_eq in Hv by lia. injection Hv as <-.
      by apply outcome_fails_softly, Hfail.
    - rewrite list_lookup_insert_ne in Hv by done.
      destruct (Hothers i frame Hf Hne) as (x & Hx & Hs).
      rewrite Hx in Hv. injection Hv as <-. by apply outcome_succeeds. }
  assert (np_mean vals = Return mean) as Hmean.
  { unfold np_mean, vals, mean. rewrite numbers_fmap.
    assert (length (<[k := 0%Q]> scores) = length frames) as HE
      by (by rewrite length_insert).
    destruct (<[k := 0%Q]> scores) as [|x xs].
    - cbn in HE. lia.
    - by rewrite HE. }
  assert (is_nil frames = false) as Hnil by (destruct frames; [cbn in Hk; lia | done]).
  split.
  - unfold analyze_video. rewrite He, Hnil.
    pose proof (score_loop_all_return api frames 0 [] ({[video_path]} ∪ fs) vals Hvals Hall) as Hs.
    destruct (score_loop api frames 0 [] ({[video_path]} ∪ fs)) as [nsfw_scores fs'].
    cbn in Hs. subst nsfw_scores. cbn [fst]. unfold aggregate.
    destruct vals as [|v vals']; [destruct frames; [done | discriminate Hvals]|].
    exact Hmean.
  - unfold main. rewrite He.
    pose proof (comprehension_all_return api frames 0 fs vals Hvals Hall) as Hc.
    destruct (comprehension api frames 0 fs) as [r fs'].
    cbn in Hc. subst r. exact Hmean.
Qed.

Lemma soft_failure_counts_as_zero_witness :
  let cap := mkCapture true 2 ["frame0"; "frame1"; "frame2"; "frame3"] in
  let body := JObj [("status", JStr "success"); ("nudity", JObj [("raw", JNum (1 # 2))])] in
  let api := λ (idx : nat) (_ : string),
    mkEnv (Some "tmp.jpg") false
      (match idx with O => PostRaises RequestException | _ => PostReturns body end) in
  (analyze_video cap (Some "upload.mp4") api ∅).1 = Return (Fin (1 # 4)) ∧
  (main cap "upload.mp4" api ∅).1 = Return (Fin (1 # 4)).
Proof.
  intros cap body api.
  apply (soft_failure_counts_as_zero cap "upload.mp4" api ∅
           ["frame0"; "frame2"] [1; 1 # 2]%Q 0).
  - reflexivity.
  - reflexivity.
  - cbn. lia.
  - intros [|[|i]] frame Hf Hne; [done| |done].
    exists (1 # 2)%Q. split; [reflexivity|].
    exists "tmp.jpg", [("status", JStr "success"); ("nudity", JObj [("raw", JNum (1 # 2))])],
      [("raw", JNum (1 # 2))].
    repeat split.
  - intros frame Hf. exists "tmp.jpg". repeat split. by left.
Defined.

(** C2, where the code departs from the claim as stated. The response
    for frame 0 has ["nudity"] without ["raw"], the call for frame 1
    succeeds with 0.5: [analyze_video] leaves frame 0 out and returns
    0.5, not the mean 0.25 with 0 in its place, and the entry point
    stops at the [KeyError]. *)
Lemma missing_raw_is_left_out :
  let cap := mkCapture true 1 ["frame0"; "frame1"] in
  let api := λ (idx : nat) (_ : string),
    mkEnv (Some "tmp.jpg") false
      (PostReturns
         (match idx with
          | O => JObj [("nudity", JObj [])]
          | _ => JObj [("nudity", JObj [("raw", JNum (1 # 2))])]
          end)) in
  extract_frames cap "upload.mp4" 1 = Return ["frame0"; "frame1"] ∧
  outcome api 0 "frame0" = Raise (KeyError "raw") ∧
  call_succeeds (api 1%nat "frame1") (1 # 2) ∧
  (analyze_video cap (Some "upload.mp4") api ∅).1 = Return (Fin (1 # 2)) ∧
  (analyze_video cap (Some "upload.mp4") api ∅).1 ≠
    Return (Fin (Qred (Qsum (<[0%nat := 0%Q]> [1; 1 # 2]%Q) / inject_Z 2))) ∧
  (main cap "upload.mp4" api ∅).1 = Raise (KeyError "raw").
Proof.
  intros cap api. split; [reflexivity|]. split; [reflexivity|]. split.
  { exists "tmp.jpg", [("nudity", JObj [("raw", JNum (1 # 2))])], [("raw", JNum (1 # 2))].
    repeat split. }
  split; [vm_compute; reflexivity|]. split; [|vm_compute; reflexivity].
  vm_compute. intros H. discriminate H.
Qed.

(** ** The pipelines on the scenarios of the specification *)

(** Rate 30, 90 frames, scores 0.1, 0.9 and 0.5 for the three sampled
    frames: the aggregate is 0.5. *)
Example analyze_three_frames :
  let body := λ x, JObj [("status", JStr "success"); ("nudity", JObj [("raw", JNum x)])] in
  let api := λ (idx : nat) (_ : nat),
    mkEnv (Some "tmp.jpg") false
      (PostReturns (body (match idx with O => 1 # 10 | 1 => 9 # 10 | _ => 1 # 2 end)%nat)) in
  (analyze_video (mkCapture true 30 (seq 0 90)) (Some "upload.mp4") api ∅).1
  = Return (Fin (1 # 2)).
Proof. vm_compute. reflexivity. Qed.

(** One frame, a request that fails: the score is 0 and so is the
    aggregate. *)
Example analyze_one_failed_request :
  let api := λ (_ : nat) (_ : string),
    mkEnv (Some "tmp.jpg") false (PostRaises RequestException) in
  (analyze_video (mkCapture true 25 ["frame0"]) (Some "upload.mp4") api ∅).1
  = Return (Fin 0).
Proof. vm_compute. reflexivity. Qed.

(** Every call raising leaves [analyze_video] without a score. *)
Example analyze_all_calls_raise :
  let api := λ (_ : nat) (_ : string),
    mkEnv (Some "tmp.jpg") false (PostReturns (JObj [("nudity", JNull)])) in
  (analyze_video (mkCapture true 25 ["frame0"]) (Some "upload.mp4") api ∅).1
  = Raise EmptyScores.
Proof. vm_compute. reflexivity. Qed.

(** * Further properties of the sampler *)


Lemma extract_frames_unknown_rate_witness :
  extract_frames (mkCapture true 0 ["frame0"; "frame1"; "frame2"]) "clip.mp4" 5
  = Return ["frame0"; "frame1"; "frame2"].
Proof.
  apply (extract_frames_unknown_rate
           (mkCapture true 0 ["frame0"; "frame1"; "frame2"]) "clip.mp4" 5);
    [reflexivity | discriminate | discriminate].
Defined.

(** The offset of the next multiple of the interval, one position on. *)
Lemma next_multiple_after_multiple interval start :
  0 < interval → start mod interval = 0 →
  (- start) mod interval = 0 ∧ (- (start + 1)) mod interval = interval - 1.
Proof.
  intros Hpos Hm.
  pose proof (Z.div_mod start interval ltac:(lia)) as Hd.
  split; symmetry.
  - apply Z.mod_unique with (q := - (start / interval)); lia.
  - apply Z.mod_unique with (q := - (start / interval) - 1); lia.
Qed.

Lemma next_multiple_after_other interval start :
  0 < interval → start mod interval ≠ 0 →
  1 <= (- start) mod interval ∧
  (- (start + 1)) mod interval = (- start) mod interval - 1.
Proof.
  intros Hpos Hm.
  pose proof (Z.div_mod start interval ltac:(lia)) as Hd.
  pose proof (Z.mod_pos_bound start interval Hpos) as Hb.
  assert ((- start) mod interval = interval - start mod interval) as ->.
  { symmetry. apply Z.mod_unique with (q := - (start / interval) - 1); lia. }
  split; [lia|].
  symmetry. apply Z.mod_unique with (q := - (start / interval) - 1); lia.
Qed.

Lemma at_multiples_lookup {Frame : Type} interval (stream : list Frame) :
  0 < interval → ∀ start (r j : nat),
  Z.of_nat r = (- start) mod interval →
  at_multiples interval start stream !! j =
  stream !! (r + j * Z.to_nat interval)%nat.
Proof.
  intros Hpos. induction stream as [|frame stream IH]; intros start r j Hr.
  - rewrite at_multiples_nil. by rewrite !lookup_nil.
  - rewrite at_multiples_cons, is_multiple_nonzero by lia.
    destruct (Z.eqb_spec (start mod interval) 0) as [Hm|Hm].
    + destruct (next_multiple_after_multiple interval start Hpos Hm) as [H0 H1].
      assert (r = 0)%nat as -> by lia.
      destruct j as [|j]; [done|].
      change ((frame :: at_multiples interval (start + 1) stream) !! S j)
        with (at_multiples interval (start + 1) stream !! j).
      rewrite (IH (start + 1) (Z.to_nat interval - 1)%nat j) by lia.
      replace (0 + S j * Z.to_nat interval)%nat
        with (S (Z.to_nat interval - 1 + j * Z.to_nat interval)) by lia.
      done.
    + destruct (next_multiple_after_other interval start Hpos Hm) as [H0 H1].
      destruct r as [|r]; [lia|].
      rewrite (IH (start + 1) r j) by lia. done.
Qed.

Lemma at_multiples_sublist {Frame : Type} interval start (stream : list Frame) :
  at_multiples interval start stream `sublist_of` stream.
Proof.
  revert start. induction stream as [|frame stream IH]; intros start.
  - by rewrite at_multiples_nil.
  - rewrite at_multiples_cons. destruct (is_multiple interval start).
    + by apply sublist_skip.
    + by apply sublist_cons.
Qed.

(** What [extract_frames] returns, when it returns. *)
Lemma extract_frames_Return {Frame : Type} (cap : VideoCapture Frame) video_path frame_rate frames :
  extract_frames cap video_path frame_rate = Return frames →
  ∃ interval,
    isOpened cap = true ∧
    sampling_interval (CAP_PROP_FPS cap) frame_rate = Return interval ∧
    interval ≠ 0 ∧ frames_of cap ≠ [] ∧
    frames = at_multiples interval 0 (frames_of cap).
Proof.
  intros H. pose proof H as H'. unfold extract_frames in H'.
  destruct (isOpened cap) eqn:Ho; [|done]. cbn in H'.
  destruct (sampling_interval (CAP_PROP_FPS cap) frame_rate) as [interval|e] eqn:Hi; [|done].
  cbn in H'. exists interval.
  destruct (frames_of cap) as [|frame stream] eqn:Hs; [done|].
  destruct (decide (interval = 0)) as [->|Hne]; [done|].
  repeat split; try done.
  rewrite (extract_frames_nonzero cap video_path frame_rate interval) in H; try done.
  - rewrite Hs in H. by injection H.
  - by rewrite Hs.
Qed.

(** X3. With a positive interval, the [j]-th frame returned is the
    frame at position [j * interval] of the stream (and there is a
    [j]-th frame exactly when the stream reaches that position). *)
Theorem sampled_frame_position {Frame : Type} (cap : VideoCapture Frame)
    (video_path : string) (frame_rate : Q) (interval : Z)
    (frames : list Frame) (j : nat) :
  sampling_interval (CAP_PROP_FPS cap) frame_rate = Return interval →
  0 < interval →
  extract_frames cap video_path frame_rate = Return frames →
  frames !! j = frames_of cap !! (j * Z.to_nat interval)%nat.
Proof.
  intros Hi Hpos H.
  apply extract_frames_Return in H as (interval' & _ & Hi' & _ & _ & ->).
  assert (interval' = interval) as -> by congruence.
  by rewrite (at_multiples_lookup interval (frames_of cap) Hpos 0 0%nat j).
Qed.

Lemma sampled_frame_position_witness :
  [0; 30; 60]%nat !! 2%nat = seq 0 90 !! (2 * Z.to_nat 30)%nat.
Proof.
  apply (sampled_frame_position (mkCapture true 30 (seq 0 90)) "clip.mp4" 1 30
           [0; 30; 60]%nat 2);
    [reflexivity | lia | vm_compute; reflexivity].
Defined.

(** X4. The frames returned are frames of the stream, in stream order,
    none of them twice: the list is a sublist of the stream, whatever
    the interval. *)
Theorem extract_frames_sublist {Frame : Type} (cap : VideoCapture Frame)
    (video_path : string) (frame_rate : Q) (frames : list Frame) :
  extract_frames cap video_path frame_rate = Return frames →
  frames `sublist_of` frames_of cap ∧ (length frames ≤ length (frames_of cap))%nat.
Proof.
  intros H. apply extract_frames_Return in H as (interval & _ & _ & _ & _ & ->).
  pose proof (at_multiples_sublist interval 0 (frames_of cap)) as Hs.
  split; [done | by apply sublist_length].
Qed.

Lemma extract_frames_sublist_witness :
  ["frame0"; "frame2"] `sublist_of` ["frame0"; "frame1"; "frame2"] ∧
  (length ["frame0"; "frame2"] ≤ length ["frame0"; "frame1"; "frame2"])%nat.
Proof.
  apply (extract_frames_sublist (mkCapture true 2 ["frame0"; "frame1"; "frame2"])
           "clip.mp4" (-1) ["frame0"; "frame2"]).
  reflexivity.
Defined.

(** * Further properties of the classifier call *)

Lemma classify_removes_file_witness :
  (classify_frame_with_api
     (λ _ : string, mkEnv (Some "tmp0.jpg") false (PostRaises (KeyError "raw")))
     "frame0" {[ "upload.mp4" ]}).2 = {[ "upload.mp4" ]}.
Proof.
  apply (classify_removes_file
           (λ _ : string, mkEnv (Some "tmp0.jpg") false (PostRaises (KeyError "raw")))
           "frame0" {[ "upload.mp4" ]} "tmp0.jpg"); [reflexivity | reflexivity |].
  by rewrite elem_of_singleton.
Defined.

(** What the body of a response that is a JSON object gives. *)
Lemma read_score_object (members : list (string * json)) :
  read_score (JObj members) =
  match assoc "nudity" members with
  | None => Return (JNum 0)
  | Some (JObj inner) =>
      match assoc "raw" inner with
      | Some score => Return score
      | None => Raise (KeyError "raw")
      end
  | Some _ => Raise TypeError
  end.
Proof.
  unfold read_score, py_in, py_getitem. cbn.
  destruct (assoc "nudity" members) as [[| | |inner]|] eqn:E; cbn; rewrite ?E; done.
Qed.

Lemma read_score_raises body e :
  read_score body = Raise e → e = TypeError ∨ ∃ key, e = KeyError key.
Proof.
  destruct body as [| | s |members].
  - intros [= <-]. by left.
  - intros [= <-]. by left.
  - unfold read_score. cbn. destruct (is_substring "nudity" s); cbn; [|done].
    intros [= <-]. by left.
  - rewrite read_score_object.
    destruct (assoc "nudity" members) as [[| | |inner]|]; try done;
      try (intros [= <-]; by left).
    destruct (assoc "raw" inner); [done|]. intros [= <-]. right. by eexists.
Qed.

(** The files on disk after a call. *)
Lemma classify_disk {Frame : Type} (world : Frame → call_env) frame fs :
  (classify_frame_with_api world frame fs).2 =
  match tmp_name (world frame) with
  | None => fs
  | Some name =>
      if imwrite_raises (world frame) then {[ name ]} ∪ fs
      else ({[ name ]} ∪ fs) ∖ {[ name ]}
  end.
Proof.
  unfold_classify.
  destruct (tmp_name (world frame)) as [name|]; [|reflexivity].
  destruct (imwrite_raises (world frame)); [reflexivity|].
  destruct (http (world frame));
    by rewrite bool_decide_true by (apply elem_of_union_l, elem_of_singleton_2; reflexivity).
Qed.

(** A call leaves every file but its own temporary file alone. *)
Lemma classify_other_files {Frame : Type} (world : Frame → call_env) frame fs path :
  tmp_name (world frame) ≠ Some path →
  path ∈ (classify_frame_with_api world frame fs).2 ↔ path ∈ fs.
Proof.
  intros Hne. rewrite classify_disk.
  destruct (tmp_name (world frame)) as [name|]; [|done].
  assert (path ≠ name) as Hp by congruence.
  destruct (imwrite_raises (world frame)).
  - rewrite elem_of_union, elem_of_singleton. tauto.
  - rewrite elem_of_difference, elem_of_union, elem_of_singleton. tauto.
Qed.

(** X6. [classify_frame_with_api] never raises a [RequestException]:
    whatever the temporary directory, the image writer and the request
    do, such an exception is turned into the score 0 or replaced. *)
Theorem classify_absorbs_RequestException {Frame : Type} (world : Frame → call_env)
    (frame : Frame) (fs : gset string) :
  (classify_frame_with_api world frame fs).1 ≠ Raise RequestException.
Proof.
  unfold_classify.
  destruct (tmp_name (world frame)) as [name|]; [|done].
  destruct (imwrite_raises (world frame)); [done|].
  destruct (http (world frame)) as [e|body].
  - destruct e; cbn; by case_bool_decide.
  - cbn. destruct (read_score body) as [score|e] eqn:E.
    + cbn. by case_bool_decide.
    + apply read_score_raises in E as [->|[key ->]]; cbn; by case_bool_decide.
Qed.

(** X7. A response whose ["nudity"] object has no ["raw"] member is not
    scored 0: the [KeyError] leaves the call, after the temporary file
    has been removed. *)
Theorem classify_missing_raw {Frame : Type} (world : Frame → call_env)
    (frame : Frame) (fs : gset string) (name : string)
    (members inner : list (string * json)) :
  tmp_name (world frame) = Some name →
  imwrite_raises (world frame) = false →
  http (world frame) = PostReturns (JObj members) →
  assoc "nudity" members = Some (JObj inner) →
  assoc "raw" inner = None →
  name ∉ fs →
  classify_frame_with_api world frame fs = (Raise (KeyError "raw"), fs).
Proof.
  intros Hn Hw Hh Hnud Hraw Hfresh.
  pose proof (classify_disk world frame fs) as Hd. rewrite Hn, Hw in Hd.
  assert (({[ name ]} ∪ fs) ∖ {[ name ]} = fs) as Hfs.
  { apply set_eq. intros x.
    rewrite elem_of_difference, elem_of_union, elem_of_singleton.
    split; [tauto|]. intros Hx. split; [tauto|]. by intros ->. }
  rewrite Hfs in Hd.
  destruct (classify_frame_with_api world frame fs) as [r fs'] eqn:E.
  cbn in Hd. subst fs'. f_equal.
  change r with (r, fs).1. rewrite <- E.
  unfold_classify. rewrite Hn, Hw, Hh, read_score_object, Hnud, Hraw.
  cbn. by case_bool_decide.
Qed.

Lemma classify_missing_raw_witness :
  classify_frame_with_api
    (λ _ : string,
       mkEnv (Some "tmp0.jpg") false
         (PostReturns (JObj [("status", JStr "success"); ("nudity", JObj [("safe", JNum 1)])])))
    "frame0" ∅
  = (Raise (KeyError "raw"), ∅).
Proof.
  apply (classify_missing_raw _ "frame0" ∅ "tmp0.jpg"
           [("status", JStr "success"); ("nudity", JObj [("safe", JNum 1)])]
           [("safe", JNum 1)]);
    [reflexivity | reflexivity | reflexivity | reflexivity | reflexivity |].
  apply not_elem_of_empty.
Defined.

(** * Further properties of the two pipelines *)

Lemma returned_scores_cons {Frame : Type} (api : nat → Frame → call_env) idx frame frames :
  returned_scores api idx (frame :: frames) =
  match outcome api idx frame with
  | Return score => score :: returned_scores api (S idx) frames
  | Raise _ => returned_scores api (S idx) frames
  end.
Proof.
  unfold returned_scores. cbn. by destruct (outcome api idx frame).
Qed.

Arguments returned_scores : simpl never.

Lemma score_loop_returned {Frame : Type} (api : nat → Frame → call_env) frames :
  ∀ idx nsfw_scores fs,
  (score_loop api frames idx nsfw_scores fs).1 =
  nsfw_scores ++ returned_scores api idx frames.
Proof.
  induction frames as [|frame frames IH]; intros idx nsfw_scores fs.
  - cbn. by rewrite app_nil_r.
  - cbn [score_loop]. rewrite returned_scores_cons. unfold outcome.
    rewrite (classify_outcome_fs (api idx) frame ∅ fs).
    destruct (classify_frame_with_api (api idx) frame fs) as [[score|e] fs']; cbn [fst].
    + rewrite IH. by rewrite <- app_assoc.
    + apply IH.
Qed.

Lemma returned_scores_length {Frame : Type} (api : nat → Frame → call_env) frames :
  ∀ idx, (length (returned_scores api idx frames) ≤ length frames)%nat.
Proof.
  induction frames as [|frame frames IH]; intros idx; [done|].
  rewrite returned_scores_cons. specialize (IH (S idx)).
  destruct (outcome api idx frame); cbn [length]; lia.
Qed.

Lemma comprehension_returned {Frame : Type} (api : nat → Frame → call_env) frames :
  ∀ idx fs,
  (∀ i frame, frames !! i = Some frame → ∃ s, outcome api (idx + i) frame = Return s) →
  (comprehension api frames idx fs).1 = Return (returned_scores api idx frames) ∧
  length (returned_scores api idx frames) = length frames.
Proof.
  induction frames as [|frame frames IH]; intros idx fs Hall; [done|].
  cbn [comprehension]. rewrite returned_scores_cons.
  destruct (Hall 0%nat frame eq_refl) as [s Hs]. rewrite Nat.add_0_r in Hs.
  rewrite Hs. unfold outcome in Hs.
  rewrite (classify_outcome_fs (api idx) frame ∅ fs) in Hs.
  destruct (classify_frame_with_api (api idx) frame fs) as [r fs']. cbn in Hs. subst r.
  destruct (IH (S idx) fs') as [Hc Hl].
  { intros i frame' Hf. destruct (Hall (S i) frame' Hf) as [s' Hs'].
    exists s'. replace (idx + S i)%nat with (S (idx + i)) in Hs' by lia. exact Hs'. }
  destruct (comprehension api frames (S idx) fs') as [r fs'']. cbn in Hc. subst r.
  cbn. by rewrite Hl.
Qed.

Lemma comprehension_first_raise {Frame : Type} (api : nat → Frame → call_env) frames :
  ∀ idx fs k frame e,
  frames !! k = Some frame →
  outcome api (idx + k) frame = Raise e →
  (∀ i f, (i < k)%nat → frames !! i = Some f → ∃ s, outcome api (idx + i) f = Return s) →
  (comprehension api frames idx fs).1 = Raise e.
Proof.
  induction frames as [|frame0 frames IH]; intros idx fs k frame e Hk He Hbefore; [done|].
  cbn [comprehension]. destruct k as [|k].
  - injection Hk as ->. rewrite Nat.add_0_r in He. unfold outcome in He.
    rewrite (classify_outcome_fs (api idx) frame ∅ fs) in He.
    destruct (classify_frame_with_api (api idx) frame fs) as [r fs']. cbn in He. by subst r.
  - destruct (Hbefore 0%nat frame0 ltac:(lia) eq_refl) as [s Hs].
    rewrite Nat.add_0_r in Hs. unfold outcome in Hs.
    rewrite (classify_outcome_fs (api idx) frame0 ∅ fs) in Hs.
    destruct (classify_frame_with_api (api idx) frame0 fs) as [r fs']. cbn in Hs. subst r.
    specialize (IH (S idx) fs' k frame e Hk).
    destruct (comprehension api frames (S idx) fs') as [r fs''].
    cbn in IH. rewrite IH; [done| |].
    + replace (idx + S k)%nat with (S (idx + k)) in He by lia. exact He.
    + intros i f Hi Hf. destruct (Hbefore (S i) f ltac:(lia) Hf) as [s' Hs'].
      exists s'. replace (idx + S i)%nat with (S (idx + i)) in Hs' by lia. exact Hs'.
Qed.

(** X8. [analyze_video] aggregates the scores of exactly the frames
    whose call returned, in frame order; a frame whose call raised
    contributes nothing, whatever the exception. *)
Theorem analyze_video_returned_scores {Frame : Type} (cap : VideoCapture Frame)
    (video_path : string) (api : nat → Frame → call_env) (fs : gset string)
    (frames : list Frame) :
  extract_frames cap video_path 1 = Return frames →
  (analyze_video cap (Some video_path) api fs).1 =
  aggregate (returned_scores api 0 frames).
Proof.
  intros He. unfold analyze_video. rewrite He.
  apply extract_frames_nonempty in He.
  destruct frames as [|frame frames]; [done|]. cbn [is_nil].
  pose proof (score_loop_returned api (frame :: frames) 0 [] ({[video_path]} ∪ fs)) as Hs.
  destruct (score_loop api (frame :: frames) 0 [] ({[video_path]} ∪ fs)) as [scores fs'].
  cbn in Hs. by subst scores.
Qed.

Lemma analyze_video_returned_scores_witness :
  let api := λ (idx : nat) (_ : string),
    mkEnv (Some "tmp.jpg") false
      (PostReturns
         (match idx with
          | 1%nat => JObj [("nudity", JNull)]
          | _ => JObj [("nudity", JObj [("raw", JNum (1 # 2))])]
          end)) in
  (analyze_video (mkCapture true 1 ["frame0"; "frame1"; "frame2"])
     (Some "upload.mp4") api ∅).1 =
  aggregate (returned_scores api 0 ["frame0"; "frame1"; "frame2"]).
Proof.
  intros api.
  apply (analyze_video_returned_scores
           (mkCapture true 1 ["frame0"; "frame1"; "frame2"]) "upload.mp4" api ∅
           ["frame0"; "frame1"; "frame2"]).
  reflexivity.
Defined.

(** X9. The entry point stops at the first frame whose call raises and
    reports that exception; the frames after it are not looked at. *)
Theorem main_stops_at_first_raise {Frame : Type} (cap : VideoCapture Frame)
    (video_path : string) (api : nat → Frame → call_env) (fs : gset string)
    (frames : list Frame) (k : nat) (frame : Frame) (e : exn) :
  extract_frames cap video_path 1 = Return frames →
  frames !! k = Some frame →
  outcome api k frame = Raise e →
  (∀ i f, (i < k)%nat → frames !! i = Some f → ∃ s, outcome api i f = Return s) →
  (main cap video_path api fs).1 = Raise e.
Proof.
  intros He Hk Hr Hbefore. unfold main. rewrite He.
  pose proof (comprehension_first_raise api frames 0 fs k frame e Hk Hr Hbefore) as Hc.
  destruct (comprehension api frames 0 fs) as [r fs']. cbn in Hc. by subst r.
Qed.

Lemma main_stops_at_first_raise_witness :
  let api := λ (idx : nat) (_ : string),
    mkEnv (Some "tmp.jpg") false
      (PostReturns
         (match idx with
          | O => JObj [("nudity", JObj [("raw", JNum (1 # 2))])]
          | 1%nat => JObj [("nudity", JNull)]
          | _ => JObj [("nudity", JObj [])]
          end)) in
  (main (mkCapture true 1 ["frame0"; "frame1"; "frame2"]) "clip.mp4" api ∅).1
  = Raise TypeError.
Proof.
  intros api.
  apply (main_stops_at_first_raise
           (mkCapture true 1 ["frame0"; "frame1"; "frame2"]) "clip.mp4" api ∅
           ["frame0"; "frame1"; "frame2"] 1 "frame1" TypeError).
  - reflexivity.
  - reflexivity.
  - reflexivity.
  - intros [|i] f Hi Hf; [|lia]. by exists (JNum (1 # 2)).
Defined.

(** X10. When every call returns, [analyze_video] and the entry point
    give the same result on the same video; when the sampler raises,
    both report its exception. *)
Theorem pipelines_agree {Frame : Type} (cap : VideoCapture Frame)
    (video_path : string) (api : nat → Frame → call_env) (fs fs' : gset string) :
  (∀ frames i frame,
     extract_frames cap video_path 1 = Return frames →
     frames !! i = Some frame → ∃ s, outcome api i frame = Return s) →
  (analyze_video cap (Some video_path) api fs).1 = (main cap video_path api fs').1.
Proof.
  intros Hall. unfold analyze_video, main.
  destruct (extract_frames cap video_path 1) as [frames|e] eqn:He; [|done].
  apply extract_frames_nonempty in He as Hne.
  destruct frames as [|frame frames]; [done|]. cbn [is_nil].
  pose proof (score_loop_returned api (frame :: frames) 0 [] ({[video_path]} ∪ fs)) as Hs.
  destruct (score_loop api (frame :: frames) 0 [] ({[video_path]} ∪ fs)) as [scores fs1].
  cbn in Hs. subst scores.
  destruct (comprehension_returned api (frame :: frames) 0 fs') as [Hc Hl].
  { intros i frame' Hf. by apply (Hall (frame :: frames)). }
  destruct (comprehension api (frame :: frames) 0 fs') as [r fs2]. cbn in Hc. subst r.
  cbn [fst]. unfold aggregate.
  by destruct (returned_scores api 0 (frame :: frames)).
Qed.

Lemma pipelines_agree_witness :
  let api := λ (idx : nat) (_ : string),
    mkEnv (Some "tmp.jpg") false
      (match idx with
       | O => PostRaises RequestException
       | _ => PostReturns (JObj [("nudity", JObj [("raw", JNum (1 # 2))])])
       end) in
  (analyze_video (mkCapture true 1 ["frame0"; "frame1"]) (Some "clip.mp4") api ∅).1
  = (main (mkCapture true 1 ["frame0"; "frame1"]) "clip.mp4" api ∅).1.
Proof.
  intros api.
  apply (pipelines_agree (mkCapture true 1 ["frame0"; "frame1"]) "clip.mp4" api ∅ ∅).
  intros frames i frame He Hf. injection He as <-.
  destruct i as [|[|i]]; [by exists (JNum 0) | by exists (JNum (1 # 2)) | done].
Defined.

Lemma np_mean_zeros (n : nat) :
  n ≠ 0%nat → np_mean (replicate n (JNum 0)) = Return (Fin 0).
Proof.
  intros Hn. unfold np_mean.
  replace (replicate n (JNum 0)) with (JNum <$> replicate n 0%Q)
    by (by rewrite fmap_replicate).
  rewrite numbers_fmap.
  destruct n as [|n]; [done|]. cbn [replicate].
  do 2 f_equal. transitivity (Qred 0); [|reflexivity]. apply Qred_complete.
  assert (∀ m, Qsum (replicate m 0%Q) == 0)%Q as Hz.
  { induction m as [|m IH]; [reflexivity|]. cbn [replicate Qsum foldr].
    fold (Qsum (replicate m 0%Q)). rewrite IH. reflexivity. }
  change (0%Q :: replicate n 0%Q) with (replicate (S n) 0%Q).
  rewrite Hz. unfold Qdiv. apply Qmult_0_l.
Qed.

(** X11. When every call fails softly (the request raises a
    [RequestException], or the response has no ["nudity"] member), both
    pipelines return the score 0, the score of a video whose frames all
    score 0: a service that is down is not reported as an error. *)
Theorem outage_scores_zero {Frame : Type} (cap : VideoCapture Frame)
    (video_path : string) (api : nat → Frame → call_env) (fs : gset string)
    (frames : list Frame) :
  extract_frames cap video_path 1 = Return frames →
  (∀ i frame, frames !! i = Some frame → call_fails_softly (api i frame)) →
  (analyze_video cap (Some video_path) api fs).1 = Return (Fin 0) ∧
  (main cap video_path api fs).1 = Return (Fin 0).
Proof.
  intros He Hall.
  apply extract_frames_nonempty in He as Hne.
  set (vals := replicate (length frames) (JNum 0)).
  assert (length vals = length frames) as Hlen by apply length_replicate.
  assert (∀ i frame s, frames !! i = Some frame → vals !! i = Some s →
            outcome api (0 + i) frame = Return s) as Hout.
  { intros i frame s Hf Hv. apply lookup_replicate in Hv as [-> _].
    by apply outcome_fails_softly, Hall. }
  assert (np_mean vals = Return (Fin 0)) as Hmean.
  { apply np_mean_zeros. by destruct frames. }
  split.
  - unfold analyze_video. rewrite He.
    destruct frames as [|frame frames]; [done|]. cbn [is_nil].
    pose proof (score_loop_all_return api (frame :: frames) 0 []
                  ({[video_path]} ∪ fs) vals Hlen Hout) as Hs.
    destruct (score_loop api (frame :: frames) 0 [] ({[video_path]} ∪ fs)) as [scores fs'].
    cbn in Hs. subst scores. exact Hmean.
  - unfold main. rewrite He.
    pose proof (comprehension_all_return api frames 0 fs vals Hlen Hout) as Hc.
    destruct (comprehension api frames 0 fs) as [r fs']. cbn in Hc. subst r.
    exact Hmean.
Qed.

Lemma outage_scores_zero_witness :
  let api := λ (idx : nat) (_ : string),
    mkEnv (Some "tmp.jpg") false
      (match idx with
       | O => PostRaises RequestException
       | _ => PostReturns (JObj [("status", JStr "failure")])
       end) in
  (analyze_video (mkCapture true 1 ["frame0"; "frame1"]) (Some "clip.mp4") api ∅).1
    = Return (Fin 0) ∧
  (main (mkCapture true 1 ["frame0"; "frame1"]) "clip.mp4" api ∅).1 = Return (Fin 0).
Proof.
  intros api.
  apply (outage_scores_zero (mkCapture true 1 ["frame0"; "frame1"]) "clip.mp4" api ∅
           ["frame0"; "frame1"]); [reflexivity|].
  intros [|[|i]] frame Hf; [| |done]; exists "tmp.jpg"; repeat split.
  - by left.
  - right. by eexists.
Defined.

(** ** The files the pipelines leave behind *)

Lemma fresh_difference (name : string) (fs : gset string) :
  name ∉ fs → ({[ name ]} ∪ fs) ∖ {[ name ]} = fs.
Proof.
  intros Hfresh. apply set_eq. intros x.
  rewrite elem_of_difference, elem_of_union, elem_of_singleton.
  split; [tauto|]. intros Hx. split; [tauto|]. by intros ->.
Qed.

Lemma score_loop_other_files {Frame : Type} (api : nat → Frame → call_env) frames path :
  (∀ i frame, tmp_name (api i frame) ≠ Some path) →
  ∀ idx nsfw_scores fs,
  path ∈ (score_loop api frames idx nsfw_scores fs).2 ↔ path ∈ fs.
Proof.
  intros Hne. induction frames as [|frame frames IH]; intros idx nsfw_scores fs; [done|].
  cbn [score_loop].
  pose proof (classify_other_files (api idx) frame fs path (Hne idx frame)) as Hc.
  destruct (classify_frame_with_api (api idx) frame fs) as [[score|e] fs'];
    cbn [snd] in Hc; rewrite IH; exact Hc.
Qed.

Lemma score_loop_disk {Frame : Type} (api : nat → Frame → call_env) frames fs :
  ∀ idx nsfw_scores,
  (∀ i frame, frames !! i = Some frame →
     ∃ name, tmp_name (api (idx + i)%nat frame) = Some name ∧
             imwrite_raises (api (idx + i)%nat frame) = false ∧ name ∉ fs) →
  (score_loop api frames idx nsfw_scores fs).2 = fs.
Proof.
  induction frames as [|frame frames IH]; intros idx nsfw_scores Hall; [done|].
  cbn [score_loop].
  destruct (Hall 0%nat frame eq_refl) as (name & Hn & Hw & Hfresh).
  rewrite Nat.add_0_r in Hn, Hw.
  pose proof (classify_disk (api idx) frame fs) as Hd.
  rewrite Hn, Hw, fresh_difference in Hd by done.
  assert (∀ i frame', frames !! i = Some frame' →
     ∃ name, tmp_name (api (S idx + i)%nat frame') = Some name ∧
             imwrite_raises (api (S idx + i)%nat frame') = false ∧ name ∉ fs) as Hrest.
  { intros i frame' Hf. destruct (Hall (S i) frame' Hf) as (name' & H1 & H2 & H3).
    exists name'. replace (idx + S i)%nat with (S idx + i)%nat in H1, H2 by lia. done. }
  destruct (classify_frame_with_api (api idx) frame fs) as [[score|e] fs'];
    cbn [snd] in Hd; subst fs'; by apply IH.
Qed.

Lemma comprehension_disk {Frame : Type} (api : nat → Frame → call_env) frames fs :
  ∀ idx,
  (∀ i frame, frames !! i = Some frame →
     ∃ name, tmp_name (api (idx + i)%nat frame) = Some name ∧
             imwrite_raises (api (idx + i)%nat frame) = false ∧ name ∉ fs) →
  (comprehension api frames idx fs).2 = fs.
Proof.
  induction frames as [|frame frames IH]; intros idx Hall; [done|].
  cbn [comprehension].
  destruct (Hall 0%nat frame eq_refl) as (name & Hn & Hw & Hfresh).
  rewrite Nat.add_0_r in Hn, Hw.
  pose proof (classify_disk (api idx) frame fs) as Hd.
  rewrite Hn, Hw, fresh_difference in Hd by done.
  assert (∀ i frame', frames !! i = Some frame' →
     ∃ name, tmp_name (api (S idx + i)%nat frame') = Some name ∧
             imwrite_raises (api (S idx + i)%nat frame') = false ∧ name ∉ fs) as Hrest.
  { intros i frame' Hf. destruct (Hall (S i) frame' Hf) as (name' & H1 & H2 & H3).
    exists name'. replace (idx + S i)%nat with (S idx + i)%nat in H1, H2 by lia. done. }
  destruct (classify_frame_with_api (api idx) frame fs) as [[score|e] fs'];
    cbn [snd] in Hd; subst fs'; [|done].
  specialize (IH (S idx) Hrest).
  by destruct (comprehension api frames (S idx) fs) as [[scores|e] fs''].
Qed.

(** X12. [analyze_video] never removes the copy of the upload it
    writes: as long as no call takes the copy's name for its own
    temporary file, the copy is on disk when [analyze_video] ends,
    whether it returns a score or raises. *)
Theorem upload_copy_stays {Frame : Type} (uploaded_video : VideoCapture Frame)
    (video_path : string) (api : nat → Frame → call_env) (fs : gset string) :
  (∀ i frame, tmp_name (api i frame) ≠ Some video_path) →
  video_path ∈ (analyze_video uploaded_video (Some video_path) api fs).2.
Proof.
  intros Hne.
  assert (video_path ∈ {[ video_path ]} ∪ fs) as Hin
    by (by apply elem_of_union_l, elem_of_singleton_2).
  unfold analyze_video.
  destruct (extract_frames uploaded_video video_path 1) as [frames|e]; [|done].
  destruct (is_nil frames); [done|].
  pose proof (score_loop_other_files api frames video_path Hne 0 []
                ({[ video_path ]} ∪ fs)) as Hs.
  destruct (score_loop api frames 0 [] ({[ video_path ]} ∪ fs)) as [scores fs'].
  cbn [snd] in *. by apply Hs.
Qed.

Lemma upload_copy_stays_witness :
  "upload.mp4" ∈
    (analyze_video (mkCapture true 25 ["frame0"]) (Some "upload.mp4")
       (λ (_ : nat) (_ : string), mkEnv (Some "tmp.jpg") false (PostRaises OSError))
       ∅).2.
Proof.
  apply (upload_copy_stays (mkCapture true 25 ["frame0"]) "upload.mp4"
           (λ (_ : nat) (_ : string), mkEnv (Some "tmp.jpg") false (PostRaises OSError)) ∅).
  intros i frame. discriminate.
Defined.

(** X13. When every call gets a temporary file of a new name and
    [cv2.imwrite] returns, the per-frame files are all gone at the end:
    [analyze_video] leaves the directory with one file more, the copy of
    the upload, and the entry point leaves it as it was, also when a
    call raises. *)
Theorem pipelines_disk {Frame : Type} (cap : VideoCapture Frame)
    (video_path : string) (api : nat → Frame → call_env) (fs : gset string) :
  (∀ i frame, ∃ name,
     tmp_name (api i frame) = Some name ∧
     imwrite_raises (api i frame) = false ∧
     (name ∉ fs) ∧ name ≠ video_path) →
  (analyze_video cap (Some video_path) api fs).2 = {[ video_path ]} ∪ fs ∧
  (main cap video_path api fs).2 = fs.
Proof.
  intros Hall. split.
  - unfold analyze_video.
    destruct (extract_frames cap video_path 1) as [frames|e]; [|done].
    destruct (is_nil frames); [done|].
    pose proof (score_loop_disk api frames ({[ video_path ]} ∪ fs) 0 []) as Hs.
    destruct (score_loop api frames 0 [] ({[ video_path ]} ∪ fs)) as [scores fs'].
    cbn [snd] in *. apply Hs.
    intros i frame _. destruct (Hall (0 + i)%nat frame) as (name & Hn & Hw & Hfresh & Hp).
    exists name. repeat split; try done.
    rewrite elem_of_union, elem_of_singleton. tauto.
  - unfold main.
    destruct (extract_frames cap video_path 1) as [frames|e]; [|done].
    pose proof (comprehension_disk api frames fs 0) as Hc.
    destruct (comprehension api frames 0 fs) as [[scores|e] fs'];
      cbn [snd] in *; apply Hc; intros i frame _;
      destruct (Hall (0 + i)%nat frame) as (name & Hn & Hw & Hfresh & Hp);
      by exists name.
Qed.

Lemma pipelines_disk_witness :
  let api := λ (idx : nat) (_ : string),
    mkEnv (Some "tmp.jpg") false
      (match idx with
       | O => PostReturns (JObj [("nudity", JObj [("raw", JNum (1 # 2))])])
       | _ => PostRaises (KeyError "raw")
       end) in
  (analyze_video (mkCapture true 1 ["frame0"; "frame1"]) (Some "upload.mp4") api ∅).2
    = {[ "upload.mp4" ]} ∪ ∅ ∧
  (main (mkCapture true 1 ["frame0"; "frame1"]) "upload.mp4" api ∅).2 = ∅.
Proof.
  intros api.
  apply (pipelines_disk (mkCapture true 1 ["frame0"; "frame1"]) "upload.mp4" api ∅).
  intros i frame. exists "tmp.jpg".
  repeat split; [apply not_elem_of_empty | discriminate].
Defined.

(** ** The exceptions of analyze_video *)






